(** * PageRank pipeline: a shallow embedding of [helpers.py] and [main.py]

    The development follows the two source files of the repository.

    - [main.py]: [normalise], [prepare_data], [rank], [append_labels] and
      [sort_result].  A two-dimensional [numpy.ndarray] is a record that
      carries its shape together with a MathComp matrix of that shape, so that
      the [assert data.shape[0] == data.shape[1]] statements are tests the
      model really performs.  The entries live in an exact ring or field:
      rounding of [float64] arithmetic is outside the model, and so are the
      non-finite values numpy produces when it divides by zero.
    - [helpers.py]: [process_data].  A Python [str] is a sequence of
      characters ([seq ascii], code points 0..255), a Python [int] is a [Z],
      and an exception is a value of [exception] returned on the left of a
      sum. *)

From HB Require Import structures.
From Stdlib Require Import Ascii String ZArith Decimal DecimalZ DecimalPos.
From mathcomp Require Import boot order algebra.

Set Implicit Arguments.
Unset Strict Implicit.
Unset Printing Implicit Defensive.

Import GRing.Theory Num.Theory Order.Theory.

(** [%Z] is for the integers of the Standard Library, the Python [int]s. *)
Delimit Scope Z_scope with Z.

(** ** Exceptions *)

(** The messages of the three [assert] statements of the repository. *)
Inductive message : Type :=
| SeparatorsMustDiffer
    (* "The line separator and the column separator must be different" *)
| NotATable (size i columns : nat)
    (* "The data must be a table of {size}x{size}. The line {i} has only
        {columns} columns." *)
| NotSquare
    (* "Data must be a square matrix." *).

Inductive exception : Type :=
| AssertionError (m : message)
| ValueError                     (* str.split("") ; ndarray.dot on unaligned shapes *)
| IndexError                     (* list.pop on an empty list *)
| ZeroDivisionError              (* 1 / 0 on Python numbers *)
| Propagated (name : string)     (* an exception other than ValueError that
                                    escapes from the caller's convert_data *).

(** The names the specification gives to the failed assertions. *)
Notation ConfigurationError := (AssertionError SeparatorsMustDiffer).
Notation MalformedTableError size i columns :=
  (AssertionError (NotATable size i columns)).
Notation ShapeError := (AssertionError NotSquare).

(** A computation that returns a value or raises. *)
Definition result (T : Type) : Type := (exception + T)%type.

Notation Return := (@inr exception _).
Notation Raise := (@inl exception _).

Definition bind {T U : Type} (c : result T) (k : T -> result U) : result U :=
  match c with
  | inl e => inl e
  | inr x => k x
  end.

Declare Scope py_scope.
Delimit Scope py_scope with py.
Notation "x <~ c ;; k" := (bind c (fun x => k))
  (at level 61, c at next level, right associativity) : py_scope.
Notation "' p <~ c ;; k" := (bind c (fun p => k))
  (at level 61, p pattern, c at next level, right associativity) : py_scope.

(** ** main.py: the numeric pipeline *)

Module Main.

Local Open Scope ring_scope.
Local Open Scope py_scope.

Section Arrays.

Variable R : pzRingType.

(** A two-dimensional array: [data.shape = (rows, cols)]. *)
Record ndarray : Type := Array {
  rows : nat;
  cols : nat;
  entries : 'M[R]_(rows, cols)
}.

Definition shape (a : ndarray) : nat * nat := (rows a, cols a).

(** [a.dot(b)] on two-dimensional arrays: the matrix product, defined when
    the inner dimensions agree; numpy raises ValueError otherwise. *)
Definition dot (a b : ndarray) : result ndarray :=
  match cols a =P rows b with
  | ReflectT e => Return (Array (entries a *m castmx (esym e, erefl) (entries b)))
  | ReflectF _ => Raise ValueError
  end.

(** [for i in range(epochs): data = data.dot(data)] *)
Fixpoint rank_loop (epochs : nat) (data : ndarray) : result ndarray :=
  match epochs with
  | 0 => Return data
  | k.+1 => data' <~ dot data data ;; rank_loop k data'
  end.

Definition rank (data : ndarray) (epochs : nat) : result ndarray :=
  if (shape data).1 != (shape data).2 then Raise ShapeError
  else rank_loop epochs data.

(** [results[:, 0]]: the first column of a two-dimensional array, a
    one-dimensional array read as the list of its items; numpy raises
    IndexError when the array has no column. *)
Definition isolate_results (results : ndarray) : result (seq R) :=
  match cols results as c return 'M[R]_(rows results, c) -> result (seq R) with
  | 0 => fun _ => Raise IndexError
  | c.+1 => fun M => Return [seq M i ord0 | i <- enum 'I_(rows results)]
  end (entries results).

End Arrays.

Arguments Array {R rows cols} entries.

Section Stochastic.

Variable R : numFieldType.

(** [matrix.sum(axis=0)]: the sums of the columns. *)
Definition sum_axis0 (a : ndarray R) : 'rV[R]_(cols a) :=
  \row_j \sum_i entries a i j.

(** [matrix / matrix.sum(axis=0)]: the row of column sums is broadcast over
    the rows of the matrix. *)
Definition normalise (matrix : ndarray R) : ndarray R :=
  Array (\matrix_(i, j) (entries matrix i j / sum_axis0 matrix 0 j)).

(** [1 / n] on Python integers. *)
Definition py_inverse (n : nat) : result R :=
  if n == 0%N then Raise ZeroDivisionError else Return (1 / n%:R).

(** [proportion * data + (1 - proportion) * (1 / data.shape[0])]: the scalar
    on the right is added to every entry. *)
Definition prepare_data (data : ndarray R) (proportion : R) : result (ndarray R) :=
  if (shape data).1 != (shape data).2 then Raise ShapeError
  else
    uniform <~ py_inverse (shape data).1 ;;
    Return (Array (proportion *: entries data
                   + const_mx ((1 - proportion) * uniform))).

(** A column-stochastic array: every column sums to 1. *)
Definition stochastic (a : ndarray R) : Prop :=
  forall j, \sum_i entries a i j = 1.

(** An array without a negative entry. *)
Definition nonnegative (a : ndarray R) : Prop :=
  forall i j, 0 <= entries a i j.

End Stochastic.

Section Results.

Variables (label : Type) (disp : Order.disp_t) (score : orderType disp).

(** [zip(labels, results)]; the iterator is read as the list of its items. *)
Definition append_labels (results : seq score) (labels : seq label) :
    seq (label * score) :=
  zip labels results.

(** The builtin [sorted(iterable, key=key, reverse=reverse)]: a stable sort
    on the keys; with [reverse] set the list is reversed, sorted and reversed
    again, which is how [list.sort] keeps equal keys in their first order. *)
Definition py_sorted (T : Type) (iterable : seq T) (key : T -> score)
    (reverse : bool) : seq T :=
  let le_key := fun x y => (key x <= key y)%O in
  if reverse then rev (sort le_key (rev iterable)) else sort le_key iterable.

(** [sort_result(results, reverse=True, key=lambda x: x[1])] *)
Definition sort_result (T : Type) (results : seq T) (reverse : bool)
    (key : T -> score) : seq T :=
  py_sorted results key reverse.

(** The default key, [lambda x: x[1]]. *)
Definition second (x : label * score) : score := x.2.

(** The comparisons of two pairs by their scores. *)
Definition le_score : rel (label * score) := fun x y => (x.2 <= y.2)%O.
Definition lt_score : rel (label * score) := fun x y => (x.2 < y.2)%O.

End Results.

Section Example.

Variables (label : Type) (R : realFieldType).

(** The statements of the example at the end of [main.py], on a given matrix
    and given labels instead of random data:
    [prepared_data = prepare_data(normalise(data), 1)];
    [result = rank(prepared_data)];
    [result = sort_result(append_labels(isolate_results(result), labels))]. *)
Definition example (data : ndarray R) (labels : seq label) :
    result (seq (label * R)) :=
  prepared_data <~ prepare_data (normalise data) 1 ;;
  result <~ rank prepared_data 10 ;;
  scores <~ isolate_results result ;;
  Return (sort_result (append_labels scores labels) true (@second _ _ _)).

End Example.

End Main.

(** ** Python strings *)

(** Characters and integers are compared with [==]. *)
HB.instance Definition _ := hasDecEq.Build ascii Ascii.eqb_spec.
HB.instance Definition _ := hasDecEq.Build Z Z.eqb_spec.

Module Str.

(** A Python [str]: its sequence of characters. *)
Definition str : Type := seq ascii.

Definition TAB : ascii := ascii_of_nat 9.
Definition LF : ascii := ascii_of_nat 10.

(** The whitespace characters of [str.strip] and [int] among the code points
    0..255: U+0009..U+000D, U+001C..U+0020, U+0085 and U+00A0. *)
Definition isspace (c : ascii) : bool :=
  nat_of_ascii c \in [:: 9; 10; 11; 12; 13; 28; 29; 30; 31; 32; 133; 160].

Fixpoint lstrip (s : str) : str :=
  match s with
  | c :: s' => if isspace c then lstrip s' else s
  | [::] => [::]
  end.

Definition rstrip (s : str) : str := rev (lstrip (rev s)).

(** [s.strip()] *)
Definition strip (s : str) : str := rstrip (lstrip s).

(** [s.startswith(prefix)] *)
Fixpoint startswith (s prefix : str) {struct prefix} : bool :=
  match prefix, s with
  | [::], _ => true
  | p :: prefix', c :: s' => (c == p) && startswith s' prefix'
  | _ :: _, [::] => false
  end.

(** The scan of [s.split(sep)] for a separator that is not empty: the
    occurrences of [sep] are found from left to right and do not overlap.
    [skip] counts the characters of a matched separator that are still to be
    passed over, [piece] holds the current piece, last character first. *)
Fixpoint split_scan (sep : str) (skip : nat) (piece : str) (s : str) : seq str :=
  match s with
  | [::] => [:: rev piece]
  | c :: s' =>
    match skip with
    | k.+1 => split_scan sep k piece s'
    | 0 =>
      if startswith s sep then rev piece :: split_scan sep (size sep).-1 [::] s'
      else split_scan sep 0 (c :: piece) s'
    end
  end.

(** [s.split(sep)]: ValueError("empty separator") when [sep] is empty. *)
Definition split (s sep : str) : result (seq str) :=
  if sep is [::] then Raise ValueError else Return (split_scan sep 0 [::] s).

(** [sep.join(pieces)] *)
Definition join (sep : str) (pieces : seq str) : str :=
  match pieces with
  | [::] => [::]
  | p :: pieces' => p ++ flatten [seq sep ++ q | q <- pieces']
  end.

(** *** Integers and their decimal text *)

Definition digit_char (c : ascii) : option (uint -> uint) :=
  (if c == "0" then Some D0 else if c == "1" then Some D1
   else if c == "2" then Some D2 else if c == "3" then Some D3
   else if c == "4" then Some D4 else if c == "5" then Some D5
   else if c == "6" then Some D6 else if c == "7" then Some D7
   else if c == "8" then Some D8 else if c == "9" then Some D9
   else None)%char.

(** The digits of an integer literal: decimal digits, with single
    underscores allowed between two digits. *)
Fixpoint digits (s : str) (after_digit : bool) : option uint :=
  match s with
  | [::] => if after_digit then Some Decimal.Nil else None
  | c :: s' =>
    if c == "_"%char then (if after_digit then digits s' false else None)
    else
      match digit_char c with
      | Some d => omap d (digits s' true)
      | None => None
      end
  end.

(** What a call of [convert_data] does. *)
Inductive conversion : Type :=
| Returns (value : Z)
| RaisesValueError
| Raises (name : string)   (* any exception that is not a ValueError *).

(** [int(x)] on a [str]: surrounding whitespace is dropped, a sign may
    precede the digits; anything else is a ValueError.  (The limit CPython
    puts on the number of digits is not modelled.) *)
Definition int_of_str (x : str) : conversion :=
  let s := strip x in
  let '(negative, s) :=
    match s with
    | c :: s' =>
      if c == "-"%char then (true, s')
      else if c == "+"%char then (false, s')
      else (false, s)
    | [::] => (false, s)
    end in
  match digits s false with
  | Some d => Returns (if negative then Z.opp (Z.of_uint d) else Z.of_uint d)
  | None => RaisesValueError
  end.

Fixpoint str_of_uint (d : uint) : str :=
  (match d with
   | Decimal.Nil => [::]
   | D0 d => "0" :: str_of_uint d | D1 d => "1" :: str_of_uint d
   | D2 d => "2" :: str_of_uint d | D3 d => "3" :: str_of_uint d
   | D4 d => "4" :: str_of_uint d | D5 d => "5" :: str_of_uint d
   | D6 d => "6" :: str_of_uint d | D7 d => "7" :: str_of_uint d
   | D8 d => "8" :: str_of_uint d | D9 d => "9" :: str_of_uint d
   end)%char.

(** The characters of a decimal text: the digits and the minus sign. *)
Definition decimal_char (c : ascii) : bool :=
  c \in [:: "0"; "1"; "2"; "3"; "4"; "5"; "6"; "7"; "8"; "9"; "-"]%char.

(** [str(z)] on an [int]. *)
Definition str_of_int (z : Z) : str :=
  match Z.to_int z with
  | Decimal.Pos d => str_of_uint d
  | Decimal.Neg d => "-"%char :: str_of_uint d
  end.

End Str.

(** String literals are read as Python strings. *)
Coercion list_ascii_of_string : string >-> list.

(** ** helpers.py: the table parser *)

Module Helpers.

Import Str.
Local Open Scope py_scope.

(** [for x in xs: body], threading the variables the body updates. *)
Fixpoint for_each {A S : Type} (xs : seq A) (body : S -> A -> result S)
    (s : S) : result S :=
  match xs with
  | [::] => Return s
  | x :: xs' => s' <~ body s x ;; for_each xs' body s'
  end.

(** The body of the inner loop:
    [value = 0]; [if c: try: value = convert_data(c) except ValueError: pass];
    [row.append(value)]. *)
Definition convert_cell (convert_data : str -> conversion) (row : seq Z)
    (c : str) : result (seq Z) :=
  value <~
    (if c is [::] then Return 0%Z
     else
       match convert_data c with
       | Returns v => Return v
       | RaisesValueError => Return 0%Z
       | Raises name => Raise (Propagated name)
       end) ;;
  Return (rcons row value).

(** [cells.pop(0)] *)
Definition pop0 (cells : seq str) : result (str * seq str) :=
  match cells with
  | c :: cells' => Return (c, cells')
  | [::] => Raise IndexError
  end.

(** The body of the outer loop, on the pair [(labels, table)]. *)
Definition process_row (has_labels : bool) (convert_data : str -> conversion)
    (column_separator : str) (state : seq str * seq (seq Z)) (r : str) :
    result (seq str * seq (seq Z)) :=
  let '(labels, table) := state in
  cells <~ split r column_separator ;;
  '(label, cells) <~
    (if has_labels then '(c, cells') <~ pop0 cells ;; Return (strip c, cells')
     else Return ([::], cells)) ;;
  row <~ for_each cells (convert_cell convert_data) [::] ;;
  Return (rcons labels label, rcons table row).

(** [for i in range(size): assert size <= len(table[i]), ...] *)
Definition check_table (table : seq (seq Z)) : result unit :=
  let size_ := size table in
  for_each (iota 0 size_)
    (fun _ i =>
       let columns := size (nth [::] table i) in
       if size_ <= columns then Return tt
       else Raise (MalformedTableError size_ i columns))
    tt.

(** [process_data]; [np.array(table)] is the nested list [table] itself (what
    numpy makes of rows of unequal lengths depends on its version and is not
    modelled). *)
Definition process_data (data_string : str) (has_labels : bool)
    (convert_data : str -> conversion) (line_separator column_separator : str) :
    result (seq (seq Z) * seq str) :=
  if line_separator == column_separator then Raise ConfigurationError
  else
    rows <~ split data_string line_separator ;;
    '(labels, table) <~
        for_each rows (process_row has_labels convert_data column_separator)
                 ([::], [::]) ;;
    _ <~ check_table table ;;
    Return (table, labels).

(** The call with every optional argument left out. *)
Definition process_data_default (data_string : str) :
    result (seq (seq Z) * seq str) :=
  process_data data_string true int_of_str [:: LF] [:: TAB].

(** *** What the parser computes, line by line

    The functions below describe the pieces [process_data] works on; the
    theorems relate its result to them. *)

(** The cells of a line of text. *)
Definition cells_of (column_separator r : str) : seq str :=
  split_scan column_separator 0 [::] r.

(** The label of a line. *)
Definition label_of (has_labels : bool) (column_separator r : str) : str :=
  if has_labels then strip (head [::] (cells_of column_separator r)) else [::].

(** The cells of a line that hold data. *)
Definition data_cells (has_labels : bool) (column_separator r : str) : seq str :=
  if has_labels then behead (cells_of column_separator r)
  else cells_of column_separator r.

(** A cell on which [convert_data] raises something that is not caught. *)
Definition escapes (convert_data : str -> conversion) (c : str) : bool :=
  if c is [::] then false
  else if convert_data c is Raises _ then true else false.

(** The value stored for a cell, when nothing escapes. *)
Definition cell_value (convert_data : str -> conversion) (c : str) : Z :=
  if c is [::] then 0%Z
  else if convert_data c is Returns v then v else 0%Z.

(** A row with fewer cells than the table has rows. *)
Definition short (size_ : nat) (row : seq Z) : bool := size row < size_.

(** The labels and the table read from a text, before the table is checked. *)
Definition read_labels (has_labels : bool) (line_separator column_separator :
    str) (data_string : str) : seq str :=
  [seq label_of has_labels column_separator r
  | r <- split_scan line_separator 0 [::] data_string].

Definition read_table (has_labels : bool) (convert_data : str -> conversion)
    (line_separator column_separator : str) (data_string : str) : seq (seq Z) :=
  [seq [seq cell_value convert_data c
       | c <- data_cells has_labels column_separator r]
  | r <- split_scan line_separator 0 [::] data_string].

(** The exceptions [process_data] can raise, each with its cause. *)
Inductive raises_spec (convert_data : str -> conversion) (ls cs : str) :
    exception -> Prop :=
| RaisesConfiguration :
    ls = cs -> raises_spec convert_data ls cs ConfigurationError
| RaisesEmptySeparator :
    ls <> cs -> ls = [::] \/ cs = [::] ->
    raises_spec convert_data ls cs ValueError
| RaisesPropagated (c : str) (name : string) :
    ls <> cs -> convert_data c = Raises name ->
    raises_spec convert_data ls cs (Propagated name)
| RaisesMalformed (n i columns : nat) :
    ls <> cs -> i < n -> columns < n ->
    raises_spec convert_data ls cs (MalformedTableError n i columns).

(** [convert_data] with its ValueError replaced by the value 0. *)
Definition swallowed (convert_data : str -> conversion) (c : str) : conversion :=
  if convert_data c is RaisesValueError then Returns 0%Z else convert_data c.

(** A nested list that [np.array] turns into an N x N matrix. *)
Definition square (table : seq (seq Z)) : bool :=
  all (fun row => size row == size table) table.

(** Modelled from the spec: the repository has no serializer; this is the
    text the round-trip property of the specification speaks of, one line per
    row, the label first and then the cells in decimal, the cells of a line
    separated by the column separator and the lines by the line separator. *)
Definition serialise (matrix : seq (seq Z)) (labels : seq str)
    (line_separator column_separator : str) : str :=
  join line_separator
    [seq join column_separator (lr.1 :: [seq str_of_int z | z <- lr.2])
    | lr <- zip labels matrix].

(** A label that can be told from the separators: the first character [a]
    of the line separator and the first character [b] of the column separator
    do not occur in it, and it has no whitespace at either end. *)
Definition label_fits (a b : ascii) (l : str) : bool :=
  [&& a \notin l, b \notin l & strip l == l].

(** An integer whose decimal text can be told from the separators. *)
Definition cell_fits (a b : ascii) (z : Z) : bool :=
  (a \notin str_of_int z) && (b \notin str_of_int z).

(** Tab-separated text, for the examples: one list of cells per line. *)
Definition tsv (rows : seq (seq string)) : str :=
  join [:: LF]
    [seq join [:: TAB] [seq list_ascii_of_string c | c <- r] | r <- rows].

End Helpers.

(** * The claims about the numeric pipeline *)

Section RankTheory.

Import Main.
Local Open Scope ring_scope.

Variable R : pzRingType.

(** On square arrays of one size [dot] never raises. *)
Lemma dot_square (n : nat) (A B : 'M[R]_n) :
  dot (Array A) (Array B) = Return (Array (A *m B)).
Proof.
rewrite /dot /=; case: eqP => // e.
by rewrite (eq_axiomK e) castmx_id.
Qed.

Lemma rank_loop_power (n : nat) (epochs : nat) (M : 'M[R]_n) :
  rank_loop epochs (Array M) = Return (Array (M ^+ (2 ^ epochs))).
Proof.
elim: epochs M => [|k IH] M /=; first by rewrite expn0 expr1.
by rewrite dot_square /= IH expnS exprM expr2.
Qed.

(** C2: on a square matrix [M], [rank] returns the power of [M] of exponent
    [2 ^ epochs], the product of that many copies of [M]. *)
Theorem rank_is_power (n : nat) (M : 'M[R]_n) (epochs : nat) :
  rank (Array M) epochs = Return (Array (M ^+ (2 ^ epochs))).
Proof. by rewrite /rank /= eqxx /= rank_loop_power. Qed.

(** C10: with no epoch [rank] returns the square matrix it is given. *)
Theorem rank_zero_epochs (n : nat) (M : 'M[R]_n) :
  rank (Array M) 0 = Return (Array M).
Proof. by rewrite /rank /= eqxx. Qed.

(** An array that is not square is refused. *)
Lemma rank_not_square (a : ndarray R) (epochs : nat) :
  rows a != cols a -> rank a epochs = Raise ShapeError.
Proof. by rewrite /rank /= => ->. Qed.

End RankTheory.

Section StochasticTheory.

Import Main.
Local Open Scope ring_scope.

Variable R : numFieldType.

(** C4: when no column of [M] sums to zero, every column of [normalise M]
    sums to 1, and every entry of [normalise M] is the entry of [M] divided
    by the sum of its column. *)
Theorem normalise_columns (m n : nat) (M : 'M[R]_(m, n)) :
  (forall j, \sum_i M i j != 0) ->
  (forall j, \sum_i entries (normalise (Array M)) i j = 1)
  /\ (forall i j, entries (normalise (Array M)) i j = M i j / \sum_k M k j).
Proof.
move=> nonzero; split=> [j|i j]; last by rewrite !mxE.
under eq_bigr do rewrite !mxE.
by rewrite -mulr_suml /= divff.
Qed.

(** C5, as the code has it: on a square matrix with at least one row,
    [prepare_data] with proportion 1 returns the matrix, and with proportion
    0 the matrix whose entries are all [1 / N]. *)
Theorem prepare_data_bounds (n : nat) (M : 'M[R]_n) :
  (0 < n)%N ->
  prepare_data (Array M) 1 = Return (Array M)
  /\ prepare_data (Array M) 0 = Return (Array (const_mx (1 / n%:R) : 'M[R]_n)).
Proof.
move=> n_gt0; rewrite /prepare_data /py_inverse /= eqxx /= eqn0Ngt n_gt0 /=.
split; congr (Return (@Array _ n n _)).
  by rewrite scale1r subrr mul0r; apply/matrixP=> i j; rewrite !mxE addr0.
by rewrite scale0r add0r subr0 mul1r.
Qed.

(** The array with no row and no column makes [prepare_data] divide by
    zero. *)
Lemma prepare_data_empty (M : 'M[R]_0) (proportion : R) :
  prepare_data (Array M) proportion = Raise ZeroDivisionError.
Proof. by []. Qed.

End StochasticTheory.

Section RationalExamples.

Import Main.
Local Open Scope ring_scope.

(** Every column of the 2 x 2 matrix of ones sums to 2; normalised, its
    first column sums to 1. *)
Lemma normalise_columns_witness :
  \sum_i entries (normalise (Array (const_mx 1 : 'M[rat]_2))) i ord0 = 1.
Proof.
have [] // := @normalise_columns rat 2 2 (const_mx 1).
move=> j; under eq_bigr do rewrite mxE.
by rewrite sumr_const card_ord.
Defined.

Lemma prepare_data_bounds_witness :
  prepare_data (Array (1%:M : 'M[rat]_1)) 1 = Return (Array (1%:M : 'M[rat]_1)).
Proof. by have [] := @prepare_data_bounds rat 1 1%:M isT. Defined.

(** C5 fails as stated on the square matrix with no row: [prepare_data]
    raises ZeroDivisionError on it, for [1 / data.shape[0]] is [1 / 0]. *)
Lemma prepare_data_counterexample :
  prepare_data (Array (0 : 'M[rat]_0)) 1 <> Return (Array (0 : 'M[rat]_0)).
Proof. by rewrite prepare_data_empty. Qed.

End RationalExamples.

(** * Properties of the string operations *)

Section StrTheory.

Import Str.

Lemma startswith_cat (sep rest : str) : startswith (sep ++ rest) sep.
Proof. by elim: sep => [|c sep IH] //=; rewrite eqxx. Qed.

(** Characters that belong to a matched separator are passed over. *)
Lemma split_scan_skip (sep piece passed s : str) :
  split_scan sep (size passed) piece (passed ++ s) = split_scan sep 0 piece s.
Proof. by elim: passed => [|c passed IH]. Qed.

(** A text in which the first character of the separator does not occur is
    a single piece. *)
Lemma split_scan_piece (a : ascii) (sep piece x : str) :
  a \notin x -> split_scan (a :: sep) 0 piece x = [:: rev piece ++ x].
Proof.
elim: x piece => [|c x IH] piece; first by rewrite cats0.
rewrite inE negb_or eq_sym => /andP[c_a a_x].
by rewrite [LHS]/= (negbTE c_a) /= IH // rev_cons cat_rcons.
Qed.

(** The first piece ends where the separator first starts. *)
Lemma split_scan_sep (a : ascii) (sep piece x rest : str) :
  a \notin x ->
  split_scan (a :: sep) 0 piece (x ++ (a :: sep) ++ rest)
  = (rev piece ++ x) :: split_scan (a :: sep) 0 [::] rest.
Proof.
elim: x piece => [|c x IH] piece.
  move=> _; rewrite cats0 [LHS]/= eqxx startswith_cat /=.
  by rewrite split_scan_skip.
rewrite inE negb_or eq_sym => /andP[c_a a_x].
by rewrite [LHS]/= (negbTE c_a) /= IH // rev_cons cat_rcons.
Qed.

Lemma join_cons (sep p q : str) (pieces : seq str) :
  join sep (p :: q :: pieces) = p ++ sep ++ join sep (q :: pieces).
Proof. by rewrite /= -catA. Qed.

(** Splitting undoes joining, when the first character of the separator is
    in none of the pieces and there is at least one piece. *)
Lemma split_scan_join (a : ascii) (sep p : str) (pieces : seq str) :
  all (fun q => a \notin q) (p :: pieces) ->
  split_scan (a :: sep) 0 [::] (join (a :: sep) (p :: pieces)) = p :: pieces.
Proof.
elim: pieces p => [|q pieces IH] p.
  by rewrite /= andbT cats0 => a_p; rewrite split_scan_piece.
rewrite [all _ _]/= => /andP[a_p a_qs].
by rewrite join_cons split_scan_sep // IH.
Qed.

(** A character that is neither in the separator nor in the pieces is not in
    the joined text. *)
Lemma notin_join (a : ascii) (sep : str) (pieces : seq str) :
  a \notin sep -> all (fun q => a \notin q) pieces -> a \notin join sep pieces.
Proof.
move=> a_sep; case: pieces => [|p pieces] //= /andP[a_p a_qs].
rewrite mem_cat negb_or a_p /=.
elim: pieces a_qs => [|q pieces IH] //= /andP[a_q a_qs].
by rewrite !mem_cat !negb_or a_sep a_q IH.
Qed.

(** [split] always yields at least one piece. *)
Lemma split_scan_nonempty (sep piece s : str) (skip : nat) :
  split_scan sep skip piece s != [::].
Proof.
elim: s skip piece => [|c s IH] skip piece //=.
by case: skip => [|k] //; case: ifP.
Qed.

End StrTheory.

(** * Integers survive [str] followed by [int] *)

Section IntTheory.

Import Str.

Lemma decimal_char_str_of_uint (d : uint) : all decimal_char (str_of_uint d).
Proof. by elim: d => [|d IH|d IH|d IH|d IH|d IH|d IH|d IH|d IH|d IH|d IH]. Qed.

Lemma decimal_char_not_space (c : ascii) : decimal_char c -> ~~ isspace c.
Proof.
rewrite /decimal_char !inE.
by do 10![case/orP; first by move/eqP->]; move/eqP->.
Qed.

Lemma lstrip_id (s : str) : all (predC isspace) s -> lstrip s = s.
Proof. by case: s => [|c s] //= /andP[/negbTE-> _]. Qed.

Lemma strip_id (s : str) : all (predC isspace) s -> strip s = s.
Proof.
move=> s_ns; rewrite /strip /rstrip (lstrip_id s_ns) lstrip_id ?revK //.
by rewrite all_rev.
Qed.

Lemma strip_decimal (s : str) : all decimal_char s -> strip s = s.
Proof.
move=> s_dec; apply: strip_id; apply: sub_all s_dec => c.
exact: decimal_char_not_space.
Qed.

Lemma digits_str_of_uint (d : uint) : digits (str_of_uint d) true = Some d.
Proof.
by elim: d => [|d IH|d IH|d IH|d IH|d IH|d IH|d IH|d IH|d IH|d IH] //=;
  rewrite IH.
Qed.

Lemma digits_str_of_uint_first (d : uint) :
  d <> Decimal.Nil -> digits (str_of_uint d) false = Some d.
Proof. by case: d => [|d|d|d|d|d|d|d|d|d|d] //= _; rewrite digits_str_of_uint. Qed.

Lemma int_of_str_uint (d : uint) :
  d <> Decimal.Nil -> int_of_str (str_of_uint d) = Returns (Z.of_uint d).
Proof.
move=> d_nonnil; rewrite /int_of_str strip_decimal ?decimal_char_str_of_uint //.
have ->: (let '(negative, s) :=
            match str_of_uint d with
            | c :: s' =>
              if c == "-"%char then (true, s')
              else if c == "+"%char then (false, s')
              else (false, str_of_uint d)
            | [::] => (false, str_of_uint d)
            end in
          match digits s false with
          | Some d => Returns (if negative then Z.opp (Z.of_uint d) else Z.of_uint d)
          | None => RaisesValueError
          end)
         = match digits (str_of_uint d) false with
           | Some d => Returns (Z.of_uint d)
           | None => RaisesValueError
           end.
  by case: d d_nonnil => [|d|d|d|d|d|d|d|d|d|d].
by rewrite digits_str_of_uint_first.
Qed.

Lemma int_of_str_minus (d : uint) :
  d <> Decimal.Nil ->
  int_of_str ("-"%char :: str_of_uint d) = Returns (Z.opp (Z.of_uint d)).
Proof.
move=> d_nonnil.
have dec: all decimal_char ("-"%char :: str_of_uint d).
  exact: decimal_char_str_of_uint.
by rewrite /int_of_str (strip_decimal dec) /= digits_str_of_uint_first.
Qed.

(** [int(str(z)) == z] *)
Lemma int_of_str_of_int (z : Z) : int_of_str (str_of_int z) = Returns z.
Proof.
have nonnil p := DecimalPos.Unsigned.to_uint_nonnil p.
rewrite /str_of_int; case: z => [|p|p]; rewrite /Z.to_int //.
  by rewrite (int_of_str_uint (nonnil p)) /Z.of_uint DecimalPos.Unsigned.of_to.
by rewrite (int_of_str_minus (nonnil p)) /Z.of_uint DecimalPos.Unsigned.of_to.
Qed.

Lemma str_of_int_nonempty (z : Z) : str_of_int z != [::].
Proof.
rewrite /str_of_int; case: z => [|p|p]; rewrite /Z.to_int //.
have := DecimalPos.Unsigned.to_uint_nonnil p.
by case: (BinPos.Pos.to_uint p) => // /(_ erefl).
Qed.

End IntTheory.

(** * Properties of the table parser *)

Section ParserTheory.

Import Str Helpers.
Local Open Scope py_scope.

Variables (has_labels : bool) (convert_data : str -> conversion).

Lemma for_each_cons (A S : Type) (x : A) (xs : seq A)
    (body : S -> A -> result S) (s : S) :
  for_each (x :: xs) body s = (s' <~ body s x ;; for_each xs body s').
Proof. by []. Qed.

(** The inner loop: one value per cell, appended to the row. *)
Lemma convert_cell_value (row : seq Z) (c : str) :
  ~~ escapes convert_data c ->
  convert_cell convert_data row c
  = Return (rcons row (cell_value convert_data c)).
Proof.
by rewrite /convert_cell /escapes /cell_value; case: c => [|a c] //;
  case: (convert_data _).
Qed.

Lemma convert_cell_escapes (row : seq Z) (c : str) :
  escapes convert_data c ->
  exists2 name, convert_data c = Raises name
              & convert_cell convert_data row c = Raise (Propagated name).
Proof.
rewrite /convert_cell /escapes; case: c => [|a c] //.
by case: (convert_data _) => // name _; exists name.
Qed.

Lemma convert_cells_value (cells : seq str) (row : seq Z) :
  ~~ has (escapes convert_data) cells ->
  for_each cells (convert_cell convert_data) row
  = Return (row ++ [seq cell_value convert_data c | c <- cells]).
Proof.
elim: cells row => [|c cells IH] row /=; first by rewrite cats0.
rewrite negb_or => /andP[c_ok cells_ok].
by rewrite convert_cell_value //= IH // cat_rcons.
Qed.

Lemma convert_cells_escapes (cells : seq str) (row : seq Z) :
  has (escapes convert_data) cells ->
  exists c name, convert_data c = Raises name
    /\ for_each cells (convert_cell convert_data) row = Raise (Propagated name).
Proof.
elim: cells row => [|c cells IH] row //=.
case c_esc: (escapes convert_data c) => /=.
  move=> _; have [name conv_c ->] := convert_cell_escapes row c_esc.
  by exists c, name.
by rewrite convert_cell_value ?c_esc //=; exact: IH.
Qed.

(** The body of the outer loop. *)
Lemma pop0_cells_of (column_separator r : str) :
  pop0 (cells_of column_separator r)
  = Return (head [::] (cells_of column_separator r),
            behead (cells_of column_separator r)).
Proof.
rewrite /cells_of.
by case: (split_scan _ _ _ _) (split_scan_nonempty column_separator [::] r 0).
Qed.

Lemma process_row_value (b : ascii) (sep r : str) (labels : seq str)
    (table : seq (seq Z)) :
  ~~ has (escapes convert_data) (data_cells has_labels (b :: sep) r) ->
  process_row has_labels convert_data (b :: sep) (labels, table) r
  = Return (rcons labels (label_of has_labels (b :: sep) r),
            rcons table [seq cell_value convert_data c
                        | c <- data_cells has_labels (b :: sep) r]).
Proof.
rewrite /process_row /split /data_cells /label_of -/(cells_of (b :: sep) r) /=.
case: has_labels => /= ok; first rewrite pop0_cells_of /=.
  by rewrite convert_cells_value.
by rewrite convert_cells_value.
Qed.

Lemma process_row_escapes (b : ascii) (sep r : str) (labels : seq str)
    (table : seq (seq Z)) :
  has (escapes convert_data) (data_cells has_labels (b :: sep) r) ->
  exists c name, convert_data c = Raises name
    /\ process_row has_labels convert_data (b :: sep) (labels, table) r
       = Raise (Propagated name).
Proof.
rewrite /process_row /split /data_cells -/(cells_of (b :: sep) r) /=.
case: has_labels => /= esc; first rewrite pop0_cells_of /=.
  have [c [name [conv_c ->]]] := convert_cells_escapes [::] esc.
  by exists c, name.
have [c [name [conv_c ->]]] := convert_cells_escapes [::] esc.
by exists c, name.
Qed.

Lemma process_row_empty_separator (r : str) (state : seq str * seq (seq Z)) :
  process_row has_labels convert_data [::] state r = Raise ValueError.
Proof. by case: state. Qed.

(** The outer loop. *)
Lemma process_rows_value (b : ascii) (sep : str) (rows : seq str)
    (labels : seq str) (table : seq (seq Z)) :
  ~~ has (fun r => has (escapes convert_data)
                       (data_cells has_labels (b :: sep) r)) rows ->
  for_each rows (process_row has_labels convert_data (b :: sep)) (labels, table)
  = Return (labels ++ [seq label_of has_labels (b :: sep) r | r <- rows],
            table ++ [seq [seq cell_value convert_data c
                          | c <- data_cells has_labels (b :: sep) r]
                     | r <- rows]).
Proof.
elim: rows labels table => [|r rows IH] labels table.
  by rewrite /= !cats0.
rewrite [has _ _]/= negb_or => /andP[r_ok rows_ok].
by rewrite for_each_cons process_row_value //= IH // !cat_rcons.
Qed.

Lemma process_rows_escapes (b : ascii) (sep : str) (rows : seq str)
    (labels : seq str) (table : seq (seq Z)) :
  has (fun r => has (escapes convert_data)
                    (data_cells has_labels (b :: sep) r)) rows ->
  exists c name, convert_data c = Raises name
    /\ for_each rows (process_row has_labels convert_data (b :: sep))
                (labels, table) = Raise (Propagated name).
Proof.
elim: rows labels table => [|r rows IH] labels table //.
rewrite [has _ _]/= for_each_cons.
case r_esc: (has (escapes convert_data) _); rewrite ?orTb ?orFb.
  move=> _; have [c [name [conv_c ->]]] := process_row_escapes labels table r_esc.
  by exists c, name.
by rewrite process_row_value ?r_esc //=; exact: IH.
Qed.

(** The check of the table: the first short row is reported. *)
Lemma check_loop (n : nat) (before after : seq (seq Z)) :
  for_each (iota (size before) (size after))
    (fun _ i =>
       let columns := size (nth [::] (before ++ after) i) in
       if n <= columns then Return tt
       else Raise (MalformedTableError n i columns))
    tt
  = if has (short n) after then
      Raise (MalformedTableError n (size before + find (short n) after)
               (size (nth [::] after (find (short n) after))))
    else Return tt.
Proof.
elim: after before => [|row after IH] before //.
rewrite [size (_ :: _)]/= [iota _ _]/= for_each_cons nth_cat ltnn subnn.
rewrite [nth _ _ _]/= [has _ _]/= [find _ _]/= /short ltnNge.
case: leqP => [_|short_row] /=; last by rewrite addn0.
have := IH (rcons before row); rewrite size_rcons cat_rcons => ->.
by rewrite /short addnS addSn.
Qed.

Lemma check_table_eq (table : seq (seq Z)) :
  check_table table
  = if has (short (size table)) table then
      let i := find (short (size table)) table in
      Raise (MalformedTableError (size table) i (size (nth [::] table i)))
    else Return tt.
Proof. by rewrite /check_table (check_loop (size table) [::] table). Qed.

(** [process_data], when the separators are fit for use and no exception
    escapes from [convert_data]. *)
Lemma process_data_value (a b : ascii) (ls cs data : str) :
  a :: ls != b :: cs ->
  ~~ has (fun r => has (escapes convert_data)
                       (data_cells has_labels (b :: cs) r))
         (split_scan (a :: ls) 0 [::] data) ->
  process_data data has_labels convert_data (a :: ls) (b :: cs)
  = (_ <~ check_table
            (read_table has_labels convert_data (a :: ls) (b :: cs) data) ;;
     Return (read_table has_labels convert_data (a :: ls) (b :: cs) data,
             read_labels has_labels (a :: ls) (b :: cs) data)).
Proof.
move=> /negbTE seps_differ no_escape.
by rewrite /process_data seps_differ /split [bind _ _]/= process_rows_value.
Qed.

Lemma process_data_escapes (a b : ascii) (ls cs data : str) :
  a :: ls != b :: cs ->
  has (fun r => has (escapes convert_data)
                    (data_cells has_labels (b :: cs) r))
      (split_scan (a :: ls) 0 [::] data) ->
  exists c name, convert_data c = Raises name
    /\ process_data data has_labels convert_data (a :: ls) (b :: cs)
       = Raise (Propagated name).
Proof.
move=> /negbTE seps_differ escape.
have [c [name [conv_c loop]]] := process_rows_escapes [::] [::] escape.
by exists c, name; rewrite /process_data seps_differ /split [bind _ _]/= loop.
Qed.

Lemma process_data_empty_separator (ls cs data : str) :
  ls != cs -> (ls == [::]) || (cs == [::]) ->
  process_data data has_labels convert_data ls cs = Raise ValueError.
Proof.
move=> /negbTE seps_differ; rewrite /process_data seps_differ.
case: ls {seps_differ} => [|a ls] //= /eqP->; rewrite /split.
by case: (split_scan _ _ _ _) (split_scan_nonempty (a :: ls) [::] data 0).
Qed.

(** Every way in which [process_data] raises. *)
Lemma process_data_raises (ls cs data : str) (e : exception) :
  process_data data has_labels convert_data ls cs = Raise e ->
  raises_spec convert_data ls cs e.
Proof.
have [/eqP seps_eq|seps_differ] := boolP (ls == cs).
  by rewrite /process_data seps_eq eqxx => -[<-]; apply: RaisesConfiguration.
have differ: ls <> cs by apply/eqP.
have [empty|] := boolP ((ls == [::]) || (cs == [::])).
  rewrite process_data_empty_separator // => -[<-].
  by apply: RaisesEmptySeparator => //; case/orP: empty => /eqP; [left|right].
rewrite negb_or; case: ls cs seps_differ differ => [|a ls] [|b cs] // seps_differ differ _.
have [escape|no_escape] :=
  boolP (has (fun r => has (escapes convert_data)
                           (data_cells has_labels (b :: cs) r))
             (split_scan (a :: ls) 0 [::] data)).
  have [c [name [conv_c ->]]] := process_data_escapes seps_differ escape.
  by case=> <-; apply: RaisesPropagated conv_c.
rewrite process_data_value // check_table_eq /=.
case: ifP => //= has_short [<-]; apply: RaisesMalformed => //.
  by rewrite -has_find.
by rewrite -/(short _ _) nth_find.
Qed.

End ParserTheory.

(** * Serialising and parsing back *)

Section RoundTrip.

Import Str Helpers.
Local Open Scope py_scope.

Variables (a b : ascii) (ls cs : str).

Hypothesis a_cs : a \notin b :: cs.

(** The text of one row of the matrix. *)
Notation line lr :=
  (join (b :: cs) (lr.1 :: [seq str_of_int z | z <- lr.2])).

Lemma cells_of_line (l : str) (zs : seq Z) :
  label_fits a b l -> all (cell_fits a b) zs ->
  cells_of (b :: cs) (line (l, zs)) = l :: [seq str_of_int z | z <- zs].
Proof.
case/and3P=> _ b_l _ zs_fit; rewrite /cells_of split_scan_join //=.
rewrite b_l all_map; apply: sub_all zs_fit => z /=.
by case/andP.
Qed.

Lemma a_notin_line (l : str) (zs : seq Z) :
  label_fits a b l -> all (cell_fits a b) zs -> a \notin line (l, zs).
Proof.
case/and3P=> a_l _ _ zs_fit; rewrite notin_join //=.
rewrite a_l all_map; apply: sub_all zs_fit => z /=.
by case/andP.
Qed.

Lemma no_escape_str_of_int (zs : seq Z) :
  ~~ has (escapes int_of_str) [seq str_of_int z | z <- zs].
Proof.
rewrite has_map -all_predC; apply/allP => z _ /=.
rewrite /escapes int_of_str_of_int.
by case: (str_of_int z).
Qed.

Lemma cell_value_str_of_int (zs : seq Z) :
  [seq cell_value int_of_str c | c <- [seq str_of_int z | z <- zs]] = zs.
Proof.
rewrite -map_comp -[RHS]map_id; apply: eq_map => z /=.
rewrite /cell_value int_of_str_of_int.
by case: (str_of_int z) (str_of_int_nonempty z).
Qed.

Lemma lines_round_trip (labels : seq str) (matrix : seq (seq Z)) :
  size labels = size matrix ->
  all (label_fits a b) labels -> all (all (cell_fits a b)) matrix ->
  let lines := [seq line lr | lr <- zip labels matrix] in
  [/\ all (fun r => a \notin r) lines,
      ~~ has (fun r => has (escapes int_of_str) (data_cells true (b :: cs) r))
             lines,
      [seq label_of true (b :: cs) r | r <- lines] = labels
    & [seq [seq cell_value int_of_str c | c <- data_cells true (b :: cs) r]
      | r <- lines] = matrix].
Proof.
elim: labels matrix => [|l labels IH] [|zs matrix] //= [sizes].
case/andP=> l_fits labels_fit /andP[zs_fit matrix_fit].
have [a_lines no_escape labels_eq matrix_eq] := IH _ sizes labels_fit matrix_fit.
rewrite /data_cells /label_of cells_of_line //=.
rewrite a_notin_line // a_lines (negbTE (no_escape_str_of_int zs)) no_escape.
rewrite cell_value_str_of_int; split=> //; last by rewrite matrix_eq.
by case/and3P: l_fits => _ _ /eqP->; rewrite labels_eq.
Qed.

End RoundTrip.

(** * The claims about [process_data] *)

Section ParserClaims.

Import Str Helpers.
Local Open Scope py_scope.
Local Open Scope string_scope.

(** What [process_data] returns has one label per row and no short row. *)
Lemma process_data_returns_wide (data : str) (has_labels : bool)
    (convert_data : str -> conversion) (ls cs : str)
    (table : seq (seq Z)) (labels : seq str) :
  process_data data has_labels convert_data ls cs = Return (table, labels) ->
  size labels = size table /\ all (fun row => size table <= size row) table.
Proof.
have [/eqP seps_eq|seps_differ] := boolP (ls == cs).
  by rewrite /process_data seps_eq eqxx.
have [empty|] := boolP ((ls == [::]) || (cs == [::])).
  by rewrite process_data_empty_separator.
rewrite negb_or; case: ls cs seps_differ => [|a ls] [|b cs] // seps_differ _.
have [escape|no_escape] :=
  boolP (has (fun r => has (escapes convert_data)
                           (data_cells has_labels (b :: cs) r))
             (split_scan (a :: ls) 0 [::] data)).
  by have [c [name [_ ->]]] := process_data_escapes seps_differ escape.
rewrite process_data_value // check_table_eq.
case: ifP => //= /negbT no_short [<- <-].
rewrite -all_predC in no_short; split.
  by rewrite /read_labels /read_table !size_map.
apply: sub_all no_short => row /=.
by rewrite /short -leqNgt.
Qed.

(** [process_data] fails when a row is short, and names the first one. *)
Lemma process_data_short_row (data : str) (has_labels : bool)
    (convert_data : str -> conversion) (a b : ascii) (ls cs : str) :
  let table := read_table has_labels convert_data (a :: ls) (b :: cs) data in
  a :: ls != b :: cs ->
  ~~ has (fun r => has (escapes convert_data)
                       (data_cells has_labels (b :: cs) r))
         (split_scan (a :: ls) 0 [::] data) ->
  has (short (size table)) table ->
  process_data data has_labels convert_data (a :: ls) (b :: cs)
  = Raise (MalformedTableError (size table) (find (short (size table)) table)
             (size (nth [::] table (find (short (size table)) table)))).
Proof.
move=> table seps_differ no_escape has_short.
by rewrite process_data_value // check_table_eq -/table has_short.
Qed.

(** C1, at the input on which the code departs from it: a text of two lines
    with three data cells each passes the check of [process_data], which
    returns a table of two rows and three columns, not a square one. *)
Theorem process_data_returns_wide_table :
  process_data_default (tsv [:: [:: "A"; "1"; "2"; "3"]; [:: "B"; "4"; "5"; "6"]])
  = Return ([:: [:: 1; 2; 3]; [:: 4; 5; 6]]%Z,
            [seq list_ascii_of_string l | l <- [:: "A"; "B"]])
  /\ square [:: [:: 1; 2; 3]; [:: 4; 5; 6]]%Z = false.
Proof. by split; vm_compute. Qed.

(** C6: [process_data] raises the assertion error on the separators exactly
    when the line separator and the column separator are equal. *)
Theorem configuration_error_iff (data : str) (has_labels : bool)
    (convert_data : str -> conversion) (ls cs : str) :
  process_data data has_labels convert_data ls cs = Raise ConfigurationError
  <-> ls = cs.
Proof.
split=> [/process_data_raises raised|->]; last by rewrite /process_data eqxx.
by inversion raised.
Qed.

(** Raising ValueError in [convert_data] is no different from returning 0. *)
Lemma convert_cell_swallowed (convert_data : str -> conversion) (row : seq Z)
    (c : str) :
  convert_cell convert_data row c = convert_cell (swallowed convert_data) row c.
Proof.
by rewrite /convert_cell /swallowed; case: c => [|x c] //; case: (convert_data _).
Qed.

Lemma eq_for_each (A S : Type) (body body' : S -> A -> result S) :
  (forall s x, body s x = body' s x) ->
  forall xs s, for_each xs body s = for_each xs body' s.
Proof.
move=> eq_body; elim=> [|x xs IH] s //=.
by rewrite eq_body; case: (body' s x).
Qed.

Lemma process_data_swallowed (data : str) (has_labels : bool)
    (convert_data : str -> conversion) (ls cs : str) :
  process_data data has_labels convert_data ls cs
  = process_data data has_labels (swallowed convert_data) ls cs.
Proof.
rewrite /process_data; case: ifP => // _; case: (split data ls) => //= rows.
rewrite (@eq_for_each _ _ _ (process_row has_labels (swallowed convert_data) cs)) //.
case=> labels table r; rewrite /process_row.
case: (split r cs) => //= cells.
case: (if has_labels then _ else _) => //= -[label cells'].
by rewrite (eq_for_each (convert_cell_swallowed convert_data)).
Qed.




End ParserClaims.

(** * The claim about the round trip *)

Section RoundTripClaim.

Import Str Helpers.
Local Open Scope py_scope.
Local Open Scope string_scope.

Lemma square_no_short (matrix : seq (seq Z)) :
  square matrix -> ~~ has (short (size matrix)) matrix.
Proof.
rewrite /square -all_predC; apply: sub_all => row /eqP size_row.
by rewrite /= /short size_row ltnn.
Qed.




End RoundTripClaim.

(** * The claims about the ranked results *)

Section PairingTheory.

Import Main.

Variables (label : Type) (disp : Order.disp_t) (score : orderType disp).

(** C8: [append_labels] pairs the labels and the scores by position and
    stops at the end of the shorter of the two; it has as many pairs as the
    shorter has items, and no error is raised. *)
Theorem append_labels_truncates (scores : seq score) (labels : seq label)
    (l0 : label) (s0 : score) :
  size (append_labels scores labels) = minn (size labels) (size scores)
  /\ forall i, i < minn (size labels) (size scores) ->
       nth (l0, s0) (append_labels scores labels) i
       = (nth l0 labels i, nth s0 scores i).
Proof.
rewrite /append_labels size_zip; split=> // i i_lt.
by rewrite nth_zip_cond size_zip i_lt.
Qed.

End PairingTheory.

Section ResultsTheory.

Import Main.

Variables (label : eqType) (disp : Order.disp_t) (score : orderType disp).

Implicit Types (results : seq (label * score)).

Notation le_score := (@le_score label disp score).
Notation lt_score := (@lt_score label disp score).

Lemma le_score_total : total le_score.
Proof. by move=> x y; exact: le_total. Qed.

Lemma le_score_trans : transitive le_score.
Proof. by move=> y x z; exact: le_trans. Qed.

Lemma lt_score_trans : transitive lt_score.
Proof. by move=> y x z; exact: lt_trans. Qed.

Lemma lt_score_irr : irreflexive lt_score.
Proof. by move=> x; exact: ltxx. Qed.

(** Pairs with one score are sorted, in any order. *)
Lemma sorted_same_score (s : score) results :
  all (fun x => x.2 == s) results -> sorted le_score results.
Proof.
case: results => [|x results] //= /andP[/eqP x_s].
elim: results x x_s => [|y results IH] x x_s //= /andP[/eqP y_s rest].
by rewrite /le_score x_s y_s lexx IH.
Qed.

(** With distinct scores, sorting leaves one possible list. *)
Lemma sort_lt_score results :
  uniq [seq second x | x <- results] ->
  sorted lt_score (sort le_score results).
Proof.
move=> uniq_scores.
have ->: sorted lt_score (sort le_score results)
         = sorted <%O [seq second x | x <- sort le_score results].
  by rewrite sorted_map.
rewrite lt_sorted_uniq_le (perm_uniq (perm_map _ (permEl (perm_sort _ _)))).
by rewrite uniq_scores sorted_map; apply: sort_sorted; exact: le_score_total.
Qed.

(** C9: with its default arguments [sort_result] returns the pairs by
    non-increasing score; the result is a rearrangement of the input in which
    pairs of equal score keep their order; and when the scores are pairwise
    distinct, [reverse=False] gives the same list reversed. *)
Theorem sort_result_descending results :
  let ranked := sort_result results true (@second label disp score) in
  [/\ sorted (fun x y => (second y <= second x)%O) ranked,
      perm_eq ranked results,
      forall s, [seq x <- ranked | second x == s]
                = [seq x <- results | second x == s]
    & uniq [seq second x | x <- results] ->
      sort_result results false (@second label disp score) = rev ranked].
Proof.
rewrite /sort_result /py_sorted /= -/le_score; split.
- by rewrite rev_sorted; apply: sort_sorted; exact: le_score_total.
- by rewrite perm_rev (permPl (permEl (perm_sort _ _))) perm_rev.
- move=> s; rewrite filter_rev (filter_sort le_score_total le_score_trans).
  rewrite (sorted_sort le_score_trans) ?filter_rev ?revK //.
  by apply: (@sorted_same_score s); rewrite -filter_rev filter_all.
- move=> uniq_scores; rewrite revK.
  apply: (irr_sorted_eq lt_score_trans lt_score_irr).
  + exact: sort_lt_score.
  + by apply: sort_lt_score; rewrite map_rev rev_uniq.
  + by move=> x; rewrite !mem_sort mem_rev.
Qed.

End ResultsTheory.

Lemma append_labels_truncates_witness :
  Main.append_labels [:: 5; 7; 9] [:: true; false] = [:: (true, 5); (false, 7)].
Proof.
have [size_eq nth_eq] :=
  @append_labels_truncates bool _ nat [:: 5; 7; 9] [:: true; false] true 0.
apply: (@eq_from_nth _ (true, 0)) => [|i]; first by rewrite size_eq.
by rewrite size_eq => /nth_eq ->; case: i => [|[|i]].
Defined.

Lemma sort_result_descending_witness :
  Main.sort_result [:: (true, 3); (false, 8)] false (@Main.second bool _ nat)
  = rev (Main.sort_result [:: (true, 3); (false, 8)] true (@Main.second bool _ nat)).
Proof.
have [_ _ _ reversed] := @sort_result_descending bool _ nat [:: (true, 3); (false, 8)].
by apply: reversed.
Defined.

(** * Further properties of the numeric pipeline *)

Section ShapeTheory.

Import Main.
Local Open Scope ring_scope.
Local Open Scope py_scope.

Variable R : pzRingType.

(** X1: [rank] accepts the square arrays and no other: on a square array it
    returns an array of the same shape, on any other array the assertion
    fails. *)
Theorem rank_shape (a : ndarray R) (epochs : nat) :
  if rows a == cols a then
    exists2 b, rank a epochs = Return b & shape b = shape a
  else rank a epochs = Raise ShapeError.
Proof.
case: a => m n M /=; rewrite /rank /=.
case: eqP => [m_n|_] //=; case: _ / m_n M => M.
by rewrite rank_loop_power; exists (Array (M ^+ (2 ^ epochs))).
Qed.

(** X2: epochs add up: running [rank] for [m] epochs and then for [n] epochs
    on the result is running it for [m + n] epochs, errors included. *)
Theorem rank_add (a : ndarray R) (m n : nat) :
  rank a (m + n) = (r <~ rank a m ;; rank r n).
Proof.
case: a => r c M; rewrite /rank /=.
case: eqP => [r_c|_] //=; case: _ / r_c M => M.
by rewrite !rank_loop_power /= eqxx /= rank_loop_power expnD exprM.
Qed.

End ShapeTheory.

Section DampingTheory.

Import Main.
Local Open Scope ring_scope.
Local Open Scope py_scope.

Variable R : numFieldType.

Lemma mulmx_stochastic (n : nat) (A B : 'M[R]_n) :
  stochastic (Array A) -> stochastic (Array B) -> stochastic (Array (A *m B)).
Proof.
rewrite /stochastic /= => sum_A sum_B j.
under eq_bigr do rewrite mxE.
rewrite exchange_big /=.
under eq_bigr do rewrite -mulr_suml sum_A mul1r.
exact: sum_B.
Qed.

Lemma scalar_mx_stochastic (n : nat) : stochastic (Array (1%:M : 'M[R]_n)).
Proof.
rewrite /stochastic /= => j; rewrite (bigD1 j) //= mxE eqxx big1 ?addr0 //.
by move=> i /negbTE i_j; rewrite mxE i_j.
Qed.

Lemma expmx_stochastic (n k : nat) (M : 'M[R]_n) :
  stochastic (Array M) -> stochastic (Array (M ^+ k)).
Proof.
move=> sum_M; elim: k => [|k IH]; first by rewrite expr0; exact: scalar_mx_stochastic.
by rewrite exprS; exact: mulmx_stochastic.
Qed.

(** X3: [rank] keeps a square matrix column-stochastic: when every column of
    the input sums to 1, [rank] returns a matrix whose columns all sum
    to 1. *)
Theorem rank_stochastic (n : nat) (M : 'M[R]_n) (epochs : nat) :
  stochastic (Array M) ->
  exists2 b, rank (Array M) epochs = Return b & stochastic b.
Proof.
move=> sum_M; exists (Array (M ^+ (2 ^ epochs))); last exact: expmx_stochastic.
by rewrite /rank /= eqxx /= rank_loop_power.
Qed.

Lemma expmx_idempotent (n k : nat) (M : 'M[R]_n) :
  M *m M = M -> M ^+ k.+1 = M.
Proof. by move=> MM; elim: k => [|k IH]; rewrite ?expr1 // exprS IH. Qed.

(** X4: a column-stochastic matrix whose columns are all equal is a fixed
    point of [rank]: whatever the number of epochs, [rank] returns it
    unchanged. *)
Theorem rank_fixed_point (n : nat) (M : 'M[R]_n) (epochs : nat) :
  stochastic (Array M) -> (forall i j k, M i j = M i k) ->
  rank (Array M) epochs = Return (Array M).
Proof.
move=> sum_M same_columns.
have MM: M *m M = M.
  apply/matrixP => i j; rewrite mxE.
  under eq_bigr do rewrite (same_columns i _ j).
  by rewrite -mulr_sumr sum_M mulr1.
rewrite /rank /= eqxx /= rank_loop_power.
have: (0 < 2 ^ epochs)%N by rewrite expn_gt0.
by case: (2 ^ epochs)%N => // k _; rewrite expmx_idempotent.
Qed.


Lemma prepare_data_entries (n : nat) (M : 'M[R]_n.+1) (proportion : R) :
  prepare_data (Array M) proportion
  = Return (Array (\matrix_(i, j) (proportion * M i j
                                   + (1 - proportion) * (1 / n.+1%:R)))).
Proof.
rewrite /prepare_data /py_inverse /= eqxx /=.
by congr (Return (@Array _ n.+1 n.+1 _)); apply/matrixP => i j; rewrite !mxE.
Qed.

(** X6: [prepare_data] keeps a square matrix column-stochastic, whatever the
    proportion: when every column of the input sums to 1, every column of
    the result sums to 1. *)
Theorem prepare_data_stochastic (n : nat) (M : 'M[R]_n) (proportion : R) :
  (0 < n)%N -> stochastic (Array M) ->
  exists2 b, prepare_data (Array M) proportion = Return b & stochastic b.
Proof.
case: n M => // n M _ sum_M; rewrite prepare_data_entries.
eexists; first by reflexivity.
rewrite /stochastic /= => j; under eq_bigr do rewrite mxE.
rewrite big_split /= -mulr_sumr sum_M mulr1 sumr_const card_ord.
rewrite -mulr_natr -mulrA mul1r mulVf ?pnatr_eq0 // mulr1.
by rewrite addrC subrK.
Qed.

(** X7: damping leaves no zero entry: with a proportion in [0, 1) and a
    matrix without negative entry, every entry of the result of
    [prepare_data] is positive. *)
Theorem prepare_data_positive (n : nat) (M : 'M[R]_n) (proportion : R) :
  (0 < n)%N -> 0 <= proportion < 1 -> nonnegative (Array M) ->
  exists2 b, prepare_data (Array M) proportion = Return b
           & forall i j, 0 < entries b i j.
Proof.
case: n M => // n M _ /andP[p_ge0 p_lt1] M_ge0; rewrite prepare_data_entries.
eexists; first by reflexivity.
move=> i j; rewrite /= mxE ltr_pwDr //.
  by rewrite mulr_gt0 ?subr_gt0 // div1r invr_gt0 ltr0n.
by rewrite mulr_ge0 //; exact: M_ge0.
Qed.

Lemma sum_normalise (m n : nat) (M : 'M[R]_(m, n)) :
  (forall j, \sum_i M i j != 0) -> stochastic (normalise (Array M)).
Proof.
move=> nonzero j; rewrite /normalise /=.
under eq_bigr do rewrite !mxE.
by rewrite -mulr_suml /= divff.
Qed.

Lemma normalise_fixed (m n : nat) (M : 'M[R]_(m, n)) :
  stochastic (Array M) -> normalise (Array M) = Array M.
Proof.
move=> sum_M; rewrite /normalise /=; congr (@Array _ m n _).
by apply/matrixP => i j; rewrite !mxE sum_M divr1.
Qed.

(** X8: [normalise] does nothing to a column-stochastic matrix. *)
Theorem normalise_stochastic (m n : nat) (M : 'M[R]_(m, n)) :
  stochastic (Array M) -> normalise (Array M) = Array M.
Proof.
move=> sum_M; rewrite /normalise /=; congr (@Array _ m n _).
apply/matrixP => i j; rewrite !mxE.
by rewrite sum_M divr1.
Qed.

(** X9: [normalise] is idempotent on the matrices it is meant for: when no
    column sums to zero, normalising twice is normalising once. *)
Theorem normalise_idempotent (m n : nat) (M : 'M[R]_(m, n)) :
  (forall j, \sum_i M i j != 0) ->
  normalise (normalise (Array M)) = normalise (Array M).
Proof. by move=> nonzero; apply: normalise_fixed; exact: sum_normalise. Qed.

(** X10: only the proportions between the weights of a column matter:
    multiplying the whole matrix by a scalar that is not zero does not change
    the result of [normalise], when no column sums to zero. *)
Theorem normalise_scale (m n : nat) (M : 'M[R]_(m, n)) (c : R) :
  c != 0 -> (forall j, \sum_i M i j != 0) ->
  normalise (Array (c *: M)) = normalise (Array M).
Proof.
move=> c_neq0 nonzero; rewrite /normalise /=; congr (@Array _ m n _).
apply/matrixP => i j; rewrite !mxE.
under eq_bigr do rewrite mxE.
by rewrite -mulr_sumr -mulf_div divff // mul1r.
Qed.

End DampingTheory.

Section ExampleTheory.

Import Main.
Local Open Scope ring_scope.
Local Open Scope py_scope.

Variables (label : eqType) (R : realFieldType).

Lemma prepare_data_one (n : nat) (M : 'M[R]_n.+1) :
  prepare_data (Array M) 1 = Return (Array M).
Proof.
rewrite prepare_data_entries; congr (Return (@Array _ n.+1 n.+1 _)).
by apply/matrixP => i j; rewrite mxE mul1r subrr mul0r addr0.
Qed.

Lemma isolate_results_sum (n : nat) (M : 'M[R]_n.+1) :
  stochastic (Array M) ->
  exists scores,
    [/\ isolate_results (Array M) = Return scores, size scores = n.+1
      & \sum_(s <- scores) s = 1].
Proof.
move=> sum_M; exists [seq M i ord0 | i <- enum 'I_n.+1]; split=> //.
  by rewrite size_map size_enum_ord.
by rewrite big_map big_enum /=; exact: sum_M.
Qed.

(** X11: the example of [main.py] on a square matrix of N >= 1 rows in which
    no column sums to zero, with N labels: it returns N pairs, by
    non-increasing score, their scores sum to 1, and their labels are the
    given labels in some order. *)
Theorem example_ranking (n : nat) (M : 'M[R]_n) (labels : seq label) :
  (0 < n)%N -> (forall j, \sum_i M i j != 0) -> size labels = n ->
  exists2 ranking, example (Array M) labels = Return ranking
    & [/\ size ranking = n, \sum_(x <- ranking) x.2 = 1,
          sorted (fun x y => y.2 <= x.2) ranking
        & perm_eq (unzip1 ranking) labels].
Proof.
case: n M => // n M _ nonzero size_labels; rewrite /example.
have sum_N := sum_normalise nonzero; move: sum_N; rewrite /normalise /=.
set N : 'M[R]_n.+1 := \matrix_(i, j) _ => sum_N.
have rank_N epochs:
  rank (Array N) epochs = Return (Array (N ^+ (2 ^ epochs))).
  by rewrite /rank /= eqxx /= rank_loop_power.
have [scores [scores_eq size_scores sum_scores]] :=
  isolate_results_sum (@expmx_stochastic _ _ (2 ^ 10)%N _ sum_N).
rewrite prepare_data_one /bind rank_N scores_eq.
rewrite /sort_result /py_sorted /append_labels.
set pairs := zip labels scores.
set le_pairs : rel (label * R) := fun x y => _.
have perm_pairs: perm_eq (rev (sort le_pairs (rev pairs))) pairs.
  by rewrite perm_rev (permPl (permEl (perm_sort _ _))) perm_rev.
exists (rev (sort le_pairs (rev pairs))) => //; split.
- by rewrite size_rev size_sort size_rev size_zip size_labels size_scores minnn.
- rewrite (perm_big _ perm_pairs) /= -(big_map snd xpredT id) /=.
  by rewrite -/(unzip2 pairs) unzip2_zip ?size_labels ?size_scores.
- rewrite rev_sorted; apply: sort_sorted => x y.
  exact: le_total.
- have := perm_map fst perm_pairs.
  by rewrite -/(unzip1 pairs) unzip1_zip ?size_labels ?size_scores.
Qed.

End ExampleTheory.

Section RationalWitnesses.

Import Main.
Local Open Scope ring_scope.

(** The 2 x 2 matrix with every entry 1/2: its columns are equal and sum
    to 1. *)
Lemma halves_stochastic : stochastic (Array (const_mx 2%:R^-1 : 'M[rat]_2)).
Proof.
move=> j; rewrite /=; under eq_bigr do rewrite mxE.
by rewrite sumr_const card_ord -mulr_natr mulVf.
Qed.

Lemma ones_nonzero (j : 'I_2) : \sum_i (const_mx 1 : 'M[rat]_2) i j != 0.
Proof.
under eq_bigr do rewrite mxE.
by rewrite sumr_const card_ord.
Qed.

Lemma ones_nonnegative : nonnegative (Array (const_mx 1 : 'M[rat]_2)).
Proof. by move=> i j; rewrite /= mxE. Qed.

Lemma rank_stochastic_witness :
  exists2 b, rank (Array (const_mx 2%:R^-1 : 'M[rat]_2)) 3 = Return b
           & stochastic b.
Proof. exact: (rank_stochastic 3 halves_stochastic). Defined.

Lemma rank_fixed_point_witness :
  rank (Array (const_mx 2%:R^-1 : 'M[rat]_2)) 3
  = Return (Array (const_mx 2%:R^-1 : 'M[rat]_2)).
Proof.
apply: (rank_fixed_point 3 halves_stochastic) => i j k.
by rewrite !mxE.
Defined.

Lemma prepare_data_stochastic_witness :
  exists2 b, prepare_data (Array (const_mx 2%:R^-1 : 'M[rat]_2)) 2%:R^-1
             = Return b
           & stochastic b.
Proof. exact: (@prepare_data_stochastic _ 2 _ _ isT halves_stochastic). Defined.

Lemma prepare_data_positive_witness :
  exists2 b, prepare_data (Array (const_mx 1 : 'M[rat]_2)) 0 = Return b
           & forall i j, 0 < entries b i j.
Proof.
apply: (@prepare_data_positive _ 2 (const_mx 1) 0 isT) => //.
exact: ones_nonnegative.
Defined.

Lemma normalise_stochastic_witness :
  normalise (Array (const_mx 2%:R^-1 : 'M[rat]_2))
  = Array (const_mx 2%:R^-1 : 'M[rat]_2).
Proof. exact: (normalise_stochastic halves_stochastic). Defined.

Lemma normalise_idempotent_witness :
  normalise (normalise (Array (const_mx 1 : 'M[rat]_2)))
  = normalise (Array (const_mx 1 : 'M[rat]_2)).
Proof. exact: (normalise_idempotent ones_nonzero). Defined.

Lemma normalise_scale_witness :
  normalise (Array (3%:R *: const_mx 1 : 'M[rat]_2))
  = normalise (Array (const_mx 1 : 'M[rat]_2)).
Proof. by apply: (@normalise_scale _ 2 2 (const_mx 1) 3%:R) ones_nonzero. Defined.

Lemma example_ranking_witness :
  exists2 ranking,
    example (Array (const_mx 1 : 'M[rat]_2)) [:: true; false] = Return ranking
    & [/\ size ranking = 2, \sum_(x <- ranking) x.2 = 1,
           sorted (fun x y => y.2 <= x.2) ranking
         & perm_eq (unzip1 ranking) [:: true; false]].
Proof.
exact: (@example_ranking bool rat 2 (const_mx 1) [:: true; false] isT
          ones_nonzero erefl).
Defined.

End RationalWitnesses.

(** * Further properties of the ranked results *)

Section IsolateTheory.

Import Main.
Local Open Scope ring_scope.

Variable R : pzRingType.

(** X12: [isolate_results] returns one score per row, the entries of the
    first column from the first row to the last; on an array without column
    it raises IndexError. *)
Theorem isolate_results_column (m c : nat) (M0 : 'M[R]_(m, 0))
    (M : 'M[R]_(m, c.+1)) :
  isolate_results (Array M0) = Raise IndexError
  /\ exists2 scores, isolate_results (Array M) = Return scores
       & size scores = m /\ forall i : 'I_m, nth 0 scores i = M i ord0.
Proof.
split=> //; exists [seq M i ord0 | i <- enum 'I_m] => //.
split=> [|i]; first by rewrite size_map size_enum_ord.
by rewrite (nth_map i) ?size_enum_ord // nth_ord_enum.
Qed.

End IsolateTheory.

Section SortTheory.

Import Main.

Variables (T : eqType) (disp : Order.disp_t) (score : orderType disp).
Variable key : T -> score.

Implicit Types (results : seq T) (reverse : bool).

Notation le_key := (fun x y : T => (key x <= key y)%O).

Lemma le_key_total : total le_key.
Proof. by move=> x y; exact: le_total. Qed.

Lemma le_key_trans : transitive le_key.
Proof. by move=> y x z; exact: le_trans. Qed.

Lemma sorted_same_key (s : score) results :
  all (fun x => key x == s) results -> sorted le_key results.
Proof.
case: results => [|x results] //= /andP[/eqP x_s].
elim: results x x_s => [|y results IH] x x_s //= /andP[/eqP y_s rest].
by rewrite x_s y_s lexx IH.
Qed.

Lemma sort_result_perm results reverse :
  perm_eq (sort_result results reverse key) results.
Proof.
rewrite /sort_result /py_sorted; case: reverse.
  by rewrite perm_rev (permPl (permEl (perm_sort _ _))) perm_rev.
by rewrite (permPl (permEl (perm_sort _ _))).
Qed.

Lemma sort_result_ordered results reverse :
  sorted (fun x y => if reverse then (key y <= key x)%O else (key x <= key y)%O)
         (sort_result results reverse key).
Proof.
rewrite /sort_result /py_sorted; case: reverse.
  by rewrite rev_sorted; apply: sort_sorted; exact: le_key_total.
by apply: sort_sorted; exact: le_key_total.
Qed.

(** X13: for every key and either value of [reverse], [sort_result] returns
    a rearrangement of its input, ordered by key (non-increasing when
    [reverse] is set, non-decreasing otherwise), in which the items of equal
    key keep the order they had in the input. *)
Theorem sort_result_stable results reverse :
  [/\ perm_eq (sort_result results reverse key) results,
      sorted (fun x y => if reverse then (key y <= key x)%O
                         else (key x <= key y)%O)
             (sort_result results reverse key)
    & forall s, [seq x <- sort_result results reverse key | key x == s]
                = [seq x <- results | key x == s]].
Proof.
split; [exact: sort_result_perm | exact: sort_result_ordered | move=> s].
rewrite /sort_result /py_sorted; case: reverse.
  rewrite filter_rev (filter_sort le_key_total le_key_trans).
  rewrite (sorted_sort le_key_trans) ?filter_rev ?revK //.
  by apply: (@sorted_same_key s); rewrite -filter_rev filter_all.
rewrite (filter_sort le_key_total le_key_trans) (sorted_sort le_key_trans) //.
by apply: (@sorted_same_key s); rewrite filter_all.
Qed.

(** X14: sorting again changes nothing: [sort_result] applied to its own
    result, with the same key and the same value of [reverse], returns that
    result. *)
Theorem sort_result_idempotent results reverse :
  sort_result (sort_result results reverse key) reverse key
  = sort_result results reverse key.
Proof.
rewrite /sort_result /py_sorted; case: reverse.
  rewrite revK (sorted_sort le_key_trans) //.
  by apply: sort_sorted; exact: le_key_total.
rewrite (sorted_sort le_key_trans) //.
by apply: sort_sorted; exact: le_key_total.
Qed.

(** X15: the best comes first: with [reverse] set, no item of the input has
    a key above the key of the first item of the result. *)
Theorem sort_result_best_first results (x0 : T) :
  all (fun x => (key x <= key (head x0 (sort_result results true key)))%O)
      results.
Proof.
have ordered := sort_result_ordered results true.
have perm := sort_result_perm results true.
rewrite -(perm_all _ perm).
case: (sort_result results true key) ordered => [|x ranked] //= ordered.
rewrite lexx /=.
have ge_trans:
  transitive (fun x y : T => (key y <= key x)%O).
  by move=> y u z le_yu le_zy; exact: le_trans le_zy le_yu.
exact: (order_path_min ge_trans).
Qed.

End SortTheory.

(** * Further properties of the table parser *)

Section StripTheory.

Import Str.

Lemma lstrip_lstrip (s : str) : lstrip (lstrip s) = lstrip s.
Proof. by elim: s => [|c s IH] //=; case: ifP => //= ->. Qed.

Lemma lstrip_rcons (s : str) (c : ascii) :
  ~~ isspace c -> lstrip (rcons s c) = rcons (lstrip s) c.
Proof.
move=> /negbTE c_ns; elim: s => [|x s IH] /=; first by rewrite c_ns.
by case: ifP.
Qed.

(** Stripping on the right leaves a stripped left end as it is. *)
Lemma lstrip_rstrip (s : str) : lstrip s = s -> lstrip (rstrip s) = rstrip s.
Proof.
case: s => [|c s] //=; case: ifP => [c_space eq_s|/negbT c_ns _].
  have: size (lstrip s) <= size s.
    by elim: s {eq_s} => [|x s IH] //=; case: ifP => // _; exact: leqW.
  by rewrite eq_s /= ltnn.
by rewrite /rstrip rev_cons lstrip_rcons // rev_rcons /= (negbTE c_ns).
Qed.

Lemma strip_strip (s : str) : strip (strip s) = strip s.
Proof.
rewrite /strip lstrip_rstrip ?lstrip_lstrip //.
by rewrite /rstrip revK lstrip_lstrip.
Qed.

End StripTheory.

Section ParserExtras.

Import Str Helpers.
Local Open Scope py_scope.

Variables (has_labels : bool) (convert_data : str -> conversion).

(** What is known when [process_data] returns. *)
Lemma process_data_returns (ls cs data : str) (table : seq (seq Z))
    (labels : seq str) :
  process_data data has_labels convert_data ls cs = Return (table, labels) ->
  [/\ ls != [::], cs != [::],
      table = read_table has_labels convert_data ls cs data,
      labels = read_labels has_labels ls cs data
    & ~~ has (short (size table)) table].
Proof.
have [/eqP seps_eq|seps_differ] := boolP (ls == cs).
  by rewrite /process_data seps_eq eqxx.
have [empty|] := boolP ((ls == [::]) || (cs == [::])).
  by rewrite process_data_empty_separator.
rewrite negb_or; case: ls cs seps_differ => [|a ls] [|b cs] // seps_differ _.
have [escape|no_escape] :=
  boolP (has (fun r => has (escapes convert_data)
                           (data_cells has_labels (b :: cs) r))
             (split_scan (a :: ls) 0 [::] data)).
  by have [c [name [_ ->]]] := process_data_escapes seps_differ escape.
rewrite process_data_value // check_table_eq.
by case: ifP => //= /negbT no_short [<- <-].
Qed.

(** X16: when [process_data] returns, the table has one row per line of the
    text and at least one row, there is one label per row, and no row has
    fewer cells than the table has rows. *)
Theorem process_data_table (ls cs data : str) (table : seq (seq Z))
    (labels : seq str) (rows : seq str) :
  process_data data has_labels convert_data ls cs = Return (table, labels) ->
  split data ls = Return rows ->
  [/\ size table = size rows, size labels = size rows, 0 < size rows
    & all (fun row => size rows <= size row) table].
Proof.
case/process_data_returns=> ls_nonempty _ table_eq labels_eq no_short.
case: ls ls_nonempty table_eq labels_eq => // a ls _ table_eq labels_eq [<-].
have size_table: size table = size (split_scan (a :: ls) 0 [::] data).
  by rewrite table_eq /read_table size_map.
split=> //; first by rewrite labels_eq /read_labels size_map.
  by case: (split_scan _ _ _ _) (split_scan_nonempty (a :: ls) [::] data 0).
rewrite -size_table; rewrite -all_predC in no_short.
by apply: sub_all no_short => row; rewrite /= /short -leqNgt.
Qed.

(** X17: the assertion on the table names the first short line: when
    [process_data] fails with "The data must be a table of n x n. The line i
    has only c columns", then n is the number of lines of the text, line i
    has c data cells and c < n, and no line before line i has fewer than n
    data cells. *)
Theorem malformed_table_error_first_short (ls cs data : str) (n i c : nat)
    (rows : seq str) :
  process_data data has_labels convert_data ls cs
  = Raise (MalformedTableError n i c) ->
  split data ls = Return rows ->
  [/\ n = size rows, i < n,
      c = size (data_cells has_labels cs (nth [::] rows i)), c < n
    & forall k, k < i ->
        n <= size (data_cells has_labels cs (nth [::] rows k))].
Proof.
have [/eqP seps_eq|seps_differ] := boolP (ls == cs).
  by rewrite /process_data seps_eq eqxx.
have [empty|] := boolP ((ls == [::]) || (cs == [::])).
  by rewrite process_data_empty_separator.
rewrite negb_or; case: ls cs seps_differ => [|a ls] [|b cs] // seps_differ _.
have [escape|no_escape] :=
  boolP (has (fun r => has (escapes convert_data)
                           (data_cells has_labels (b :: cs) r))
             (split_scan (a :: ls) 0 [::] data)).
  by have [x [name [_ ->]]] := process_data_escapes seps_differ escape.
rewrite process_data_value // check_table_eq.
set table := read_table _ _ _ _ _.
case: ifP => //= has_short [n_eq i_eq c_eq] [rows_eq].
have size_table: size table = size rows by rewrite -rows_eq /table size_map.
have i_lt: i < size table by rewrite -i_eq -has_find.
have nth_table k: k < size rows ->
  size (nth [::] table k)
  = size (data_cells has_labels (b :: cs) (nth [::] rows k)).
  by move=> k_lt; rewrite /table /read_table rows_eq (nth_map [::]) // size_map.
have c_short: short (size table) (nth [::] table i).
  by rewrite -i_eq nth_find.
split.
- by rewrite -n_eq.
- by rewrite -n_eq.
- by rewrite -c_eq i_eq nth_table // -size_table.
- by rewrite -c_eq -n_eq i_eq.
- move=> k k_lt_i.
  have k_lt: k < size rows by rewrite -size_table; exact: ltn_trans k_lt_i i_lt.
  rewrite -(nth_table k k_lt) -n_eq leqNgt.
  rewrite -/(short (size table) (nth [::] table k)).
  by rewrite before_find // i_eq.
Qed.

(** X18: distinct separators one of which is the empty string make
    [process_data] raise the ValueError of [str.split]. *)
Theorem empty_separator_value_error (ls cs data : str) :
  ls <> cs -> ls = [::] \/ cs = [::] ->
  process_data data has_labels convert_data ls cs = Raise ValueError.
Proof.
move=> /eqP seps_differ empty; apply: process_data_empty_separator => //.
by case: empty => ->; rewrite eqxx ?orbT.
Qed.


Lemma split_scan_trailing (a : ascii) (piece s : str) :
  split_scan [:: a] 0 piece (s ++ [:: a])
  = rcons (split_scan [:: a] 0 piece s) [::].
Proof.
elim: s piece => [|c s IH] piece; first by rewrite /= eqxx.
by rewrite cat_cons /=; case: ifP => _; rewrite IH.
Qed.

(** X20: a text that ends with the line separator is refused: with a line
    separator of one character, [process_data] raises on every text that
    ends with it, for the empty last line has too few cells. *)
Theorem trailing_separator_refused (a : ascii) (cs data : str) :
  exists e,
    process_data (data ++ [:: a]) has_labels convert_data [:: a] cs = Raise e.
Proof.
have [/eqP seps_eq|seps_differ] := boolP ([:: a] == cs).
  by exists ConfigurationError; rewrite /process_data seps_eq eqxx.
case: cs seps_differ => [|b cs] seps_differ.
  by exists ValueError; rewrite process_data_empty_separator.
have [escape|no_escape] :=
  boolP (has (fun r => has (escapes convert_data)
                           (data_cells has_labels (b :: cs) r))
             (split_scan [:: a] 0 [::] (data ++ [:: a]))).
  have [c [name [_ raised]]] := process_data_escapes seps_differ escape.
  by exists (Propagated name).
rewrite process_data_value // check_table_eq.
set table := read_table _ _ _ _ _.
suff ->: has (short (size table)) table by eexists; reflexivity.
rewrite /table /read_table split_scan_trailing map_rcons size_rcons size_map.
rewrite has_rcons /short size_map /data_cells /cells_of /=.
case: (split_scan _ _ _ _) (split_scan_nonempty [:: a] [::] data 0) => // r rows _.
by case: has_labels.
Qed.

(** X21: the labels are stripped: no label [process_data] returns starts or
    ends with whitespace. *)
Theorem process_data_labels_stripped (ls cs data : str)
    (table : seq (seq Z)) (labels : seq str) :
  process_data data has_labels convert_data ls cs = Return (table, labels) ->
  all (fun l => strip l == l) labels.
Proof.
case/process_data_returns=> _ _ _ -> _; rewrite /read_labels all_map.
apply/allP => r _ /=; rewrite /label_of.
by case: has_labels; rewrite ?strip_strip.
Qed.


End ParserExtras.

Section ParserExtras2.

Import Str Helpers.
Local Open Scope py_scope.

(** X23: without a label column every label is the empty string: with
    [has_labels=False], [process_data] returns as many empty labels as the
    table has rows. *)
Theorem no_labels_empty (convert_data : str -> conversion) (ls cs data : str)
    (table : seq (seq Z)) (labels : seq str) :
  process_data data false convert_data ls cs = Return (table, labels) ->
  labels = nseq (size table) [::].
Proof.
case/process_data_returns=> _ _ -> -> _.
rewrite /read_labels /read_table size_map /label_of.
by elim: (split_scan _ _ _ _) => [|r rows IH] //=; rewrite IH.
Qed.

Lemma convert_cell_nonempty (convert_data convert_data' : str -> conversion)
    (row : seq Z) (c : str) :
  (forall x, x <> [::] -> convert_data x = convert_data' x) ->
  convert_cell convert_data row c = convert_cell convert_data' row c.
Proof.
by move=> same; rewrite /convert_cell; case: c => [|x c] //; rewrite same.
Qed.

(** X24: [convert_data] is not called on an empty cell: two conversion
    functions that agree on the strings that are not empty give the same
    result of [process_data]. *)
Theorem empty_cell_not_converted (convert_data convert_data' : str -> conversion)
    (has_labels : bool) (ls cs data : str) :
  (forall x, x <> [::] -> convert_data x = convert_data' x) ->
  process_data data has_labels convert_data ls cs
  = process_data data has_labels convert_data' ls cs.
Proof.
move=> same; rewrite /process_data; case: ifP => // _.
case: (split data ls) => //= rows.
rewrite (@eq_for_each _ _ _ (process_row has_labels convert_data' cs)) //.
case=> labels table r; rewrite /process_row.
case: (split r cs) => //= cells.
case: (if has_labels then _ else _) => //= -[label cells'].
by rewrite (eq_for_each (fun row c => @convert_cell_nonempty _ _ row c same)).
Qed.

End ParserExtras2.

Section ParserWitnesses.

Import Str Helpers.
Local Open Scope string_scope.

Lemma process_data_table_witness :
  [/\ size [:: [:: 1; 0]; [:: 0; 1]]%Z = 2,
      size [seq list_ascii_of_string l | l <- [:: "A"; "B"]] = 2, 0 < 2
    & all (fun row : seq Z => 2 <= size row) [:: [:: 1; 0]; [:: 0; 1]]%Z].
Proof.
apply: (@process_data_table true int_of_str [:: LF] [:: TAB]
          (tsv [:: [:: "A"; "1"; "0"]; [:: "B"; "0"; "1"]])
          [:: [:: 1; 0]; [:: 0; 1]]%Z
          [seq list_ascii_of_string l | l <- [:: "A"; "B"]]
          [:: tsv [:: [:: "A"; "1"; "0"]]; tsv [:: [:: "B"; "0"; "1"]]]).
- by vm_compute.
- by vm_compute.
Defined.

Lemma malformed_table_error_first_short_witness :
  process_data_default [::] = inl (MalformedTableError 1 0 0)
  /\ [/\ 1 = size [:: [::] : str], 0 < 1,
         0 = size (data_cells true [:: TAB] (nth [::] [:: [::] : str] 0)), 0 < 1
       & forall k, k < 0 ->
           1 <= size (data_cells true [:: TAB] (nth [::] [:: [::] : str] k))].
Proof.
split; first by vm_compute.
apply: (@malformed_table_error_first_short true int_of_str [:: LF] [:: TAB]
          [::] 1 0 0 [:: [::]]).
- by vm_compute.
- by vm_compute.
Defined.

Lemma empty_separator_value_error_witness :
  process_data (tsv [:: [:: "A"; "1"]]) true int_of_str [::] [:: TAB]
  = inl ValueError.
Proof. by apply: empty_separator_value_error; [ | left]. Defined.


Lemma process_data_labels_stripped_witness :
  process_data_default (tsv [:: [:: " A "; "1"]])
  = inr ([:: [:: 1%Z]], [:: list_ascii_of_string "A"])
  /\ all (fun l : str => strip l == l) [:: list_ascii_of_string "A"].
Proof.
split; first by vm_compute.
apply: (@process_data_labels_stripped true int_of_str [:: LF] [:: TAB]
          (tsv [:: [:: " A "; "1"]]) [:: [:: 1%Z]]).
by vm_compute.
Defined.


Lemma no_labels_empty_witness :
  process_data (tsv [:: [:: "1"; "0"]; [:: "0"; "1"]]) false int_of_str
               [:: LF] [:: TAB]
  = inr ([:: [:: 1; 0]; [:: 0; 1]]%Z, [:: [::]; [::]])
  /\ [:: [::]; [::]] = nseq (size [:: [:: 1; 0]; [:: 0; 1]]%Z) ([::] : str).
Proof.
split; first by vm_compute.
apply: (@no_labels_empty int_of_str [:: LF] [:: TAB]
          (tsv [:: [:: "1"; "0"]; [:: "0"; "1"]])).
by vm_compute.
Defined.

Lemma empty_cell_not_converted_witness :
  process_data (tsv [:: [:: "A"; ""]]) true int_of_str [:: LF] [:: TAB]
  = process_data (tsv [:: [:: "A"; ""]]) true
      (fun x => if x is [::] then Raises "TypeError" else int_of_str x)
      [:: LF] [:: TAB].
Proof. by apply: empty_cell_not_converted => x; case: x. Defined.

End ParserWitnesses.
